(** * Sistema de actas: the command-driven minutes filter

    Shallow embedding of [src/sistemas_actas.py]: the phrase classifier
    [detectar_comando], the keyword tagger [buscar_keywords] and the loop
    of [procesar_audio_con_comandos] that decides which transcribed
    segments enter the minutes.

    Data model.
    - A Python [str] is a sequence of Unicode code points: [list N].
    - Time stamps ('inicio', 'fin', 'duracion') are Python floats, that is
      binary64 values: Rocq's primitive [float].
    - A segment is the dict built by [segmentar_audio_fino]; an entry of
      the minutes is the dict appended to [acta_segmentos].
    - The loop variables [estado_activo], [en_acta] and [acta_segmentos]
      are gathered in one record that is threaded through the iterations.
    - [str.lower] and [str.capitalize] are builtins of the interpreter,
      driven by the Unicode character database.  The development is
      parametric in them (Section variables); [lower_latin1] and
      [capitalize_latin1] give them on U+0000..U+00FF, the range of every
      configured phrase and keyword, for concrete runs. *)

From Stdlib Require Import NArith ZArith String Ascii Uint63 PrimFloat.
From stdpp Require Import base list.

Local Open Scope N_scope.

(** ** Strings *)

Definition str : Type := list N.

(** Code points of a literal written in this (UTF-8) file. *)
Fixpoint decode_utf8 (fuel : nat) (bs : list N) : str :=
  match fuel with
  | O => []
  | S fuel' =>
    match bs with
    | [] => []
    | b0 :: r0 =>
      if b0 <? 128 then b0 :: decode_utf8 fuel' r0
      else if b0 <? 224 then
        match r0 with
        | b1 :: r1 => ((b0 - 192) * 64 + (b1 - 128)) :: decode_utf8 fuel' r1
        | _ => []
        end
      else if b0 <? 240 then
        match r0 with
        | b1 :: b2 :: r2 =>
          ((b0 - 224) * 4096 + (b1 - 128) * 64 + (b2 - 128))
            :: decode_utf8 fuel' r2
        | _ => []
        end
      else
        match r0 with
        | b1 :: b2 :: b3 :: r3 =>
          ((b0 - 240) * 262144 + (b1 - 128) * 4096 + (b2 - 128) * 64
           + (b3 - 128)) :: decode_utf8 fuel' r3
        | _ => []
        end
    end
  end.

Definition lit (s : string) : str :=
  let bs := List.map N_of_ascii (list_ascii_of_string s) in
  decode_utf8 (List.length bs) bs.

(** Python's [sub in s] on strings: [sub] occurs at some offset of [s]. *)
Fixpoint empieza_con (sub s : str) : bool :=
  match sub, s with
  | [], _ => true
  | _ :: _, [] => false
  | a :: sub', b :: s' => (a =? b) && empieza_con sub' s'
  end.

Fixpoint contiene (sub s : str) : bool :=
  empieza_con sub s ||
  match s with
  | [] => false
  | _ :: s' => contiene sub s'
  end.

(** ** Constants of the module *)

Definition PALABRAS_CLAVE : list str :=
  [lit "obra"; lit "riesgo"; lit "medida"; lit "acta"; lit "reunión";
   lit "proyecto"; lit "civil"].
Definition COMANDOS_INICIO : list str :=
  [lit "se inicia la sesión"; lit "iniciamos"; lit "empezamos"].
Definition COMANDO_ACTIVAR : list str := [lit "en acta"; lit "dentro de acta"].
Definition COMANDO_DESACTIVAR : list str := [lit "fuera de acta"; lit "off acta"].

(** ** Records of the pipeline *)

(** The result of [detectar_comando]: one of the strings "inicio",
    "activar", "desactivar", or [None]. *)
Inductive comando : Type := inicio_cmd | activar_cmd | desactivar_cmd.

(** The 'tipo' field of an entry: 'comando' or 'contenido'. *)
Inductive tipo_entrada : Type := tipo_comando | tipo_contenido.

(** A dict produced by [segmentar_audio_fino]. *)
Record segmento : Type := Segmento {
  seg_inicio : float;
  seg_fin : float;
  seg_duracion : float;
  seg_audio : list float
}.

(** A dict appended to [acta_segmentos]. *)
Record entrada : Type := Entrada {
  inicio : float;
  fin : float;
  transcripcion : str;
  matches : list str;
  tipo : tipo_entrada
}.

(** The mutable variables of the loop of [procesar_audio_con_comandos]. *)
Record variables : Type := Variables {
  estado_activo : bool;
  en_acta : bool;
  acta_segmentos : list entrada
}.

(** ** The Latin-1 instance of the string builtins

    [str.lower] and [str.capitalize] on U+0000..U+00FF.  Code points
    above U+00FF are left as they are, so on text outside Latin-1 these
    are not the interpreter's functions; the general theorems below do
    not depend on them. *)

Definition lower_cp (c : N) : N :=
  if (65 <=? c) && (c <=? 90) then c + 32
  else if (192 <=? c) && (c <=? 222) && negb (c =? 215) then c + 32
  else c.

Definition lower_latin1 (s : str) : str := List.map lower_cp s.

(** Title case of one code point ('ß' gives "Ss", 'ÿ' and 'µ' leave
    Latin-1). *)
Definition title_cp (c : N) : str :=
  if (97 <=? c) && (c <=? 122) then [c - 32]
  else if (224 <=? c) && (c <=? 254) && negb (c =? 247) then [c - 32]
  else if c =? 223 then [83; 115]
  else if c =? 255 then [376]
  else if c =? 181 then [924]
  else [c].

Definition capitalize_latin1 (s : str) : str :=
  match s with
  | [] => []
  | c :: r => title_cp c ++ lower_latin1 r
  end.

(** ** The classifier, the tagger and the loop *)

Section Maquina.

(** [str.lower] and [str.capitalize]. *)
Variable lower : str -> str.
Variable capitalize : str -> str.

Definition detectar_comando (texto : str) : option comando :=
  let texto_lower := lower texto in
  if existsb (fun cmd => contiene cmd texto_lower) COMANDOS_INICIO then
    Some inicio_cmd
  else if existsb (fun cmd => contiene cmd texto_lower) COMANDO_ACTIVAR then
    Some activar_cmd
  else if existsb (fun cmd => contiene cmd texto_lower) COMANDO_DESACTIVAR then
    Some desactivar_cmd
  else None.

Definition buscar_keywords (texto : str) : list str :=
  let texto_lower := lower texto in
  List.filter (fun kw => contiene kw texto_lower) PALABRAS_CLAVE.

(** Truth value of a string: [not s] holds of the empty string only. *)
Definition vacia (s : str) : bool :=
  match s with [] => true | _ :: _ => false end.

(** One iteration of the [for] loop; the second component of the pair
    is the value of [transcribir_segmento] on the segment. *)
Definition iteracion (v : variables) (x : segmento * str) : variables :=
  let seg := fst x in
  let texto := snd x in
  if vacia texto then v
  else
    let cmd := detectar_comando texto in
    match cmd with
    | Some inicio_cmd =>
        Variables true (en_acta v) (acta_segmentos v)
    | _ =>
      if negb (estado_activo v) then v
      else
        match cmd with
        | Some activar_cmd =>
            Variables (estado_activo v) true (acta_segmentos v)
        | Some desactivar_cmd =>
            Variables (estado_activo v) false
              (acta_segmentos v ++
               [Entrada (seg_inicio seg) (seg_fin seg) texto
                  (buscar_keywords texto) tipo_comando])
        | _ =>
          if en_acta v && negb (vacia texto) then
            Variables (estado_activo v) (en_acta v)
              (acta_segmentos v ++
               [Entrada (seg_inicio seg) (seg_fin seg) (capitalize texto)
                  (buscar_keywords texto) tipo_contenido])
          else v
        end
    end.

Definition variables_iniciales : variables := Variables false false [].

Definition bucle (xs : list (segmento * str)) (v : variables) : variables :=
  fold_left iteracion xs v.

Definition procesar_audio_con_comandos (xs : list (segmento * str))
  : list entrada :=
  acta_segmentos (bucle xs variables_iniciales).

(** *** What one window contributes *)

(** The entries that the iteration on [x] appends to [acta_segmentos]:
    what the list holds after the iteration beyond what it held before. *)
Definition anadidos (v : variables) (x : segmento * str) : list entrada :=
  drop (length (acta_segmentos v)) (acta_segmentos (iteracion v x)).

(** The contributions of the windows of a run, window by window. *)
Fixpoint emitidos (v : variables) (xs : list (segmento * str))
  : list (list entrada) :=
  match xs with
  | [] => []
  | x :: xs' => anadidos v x :: emitidos (iteracion v x) xs'
  end.

(** The variables as they stand when window [i] of [xs] is reached. *)
Definition al_llegar (xs : list (segmento * str)) (i : nat) : variables :=
  bucle (take i xs) variables_iniciales.

(** *** The loop body as a transition relation

    One rule per path through the body of the [for] loop. *)
Inductive paso : variables -> segmento * str -> variables -> Prop :=
| paso_vacia v seg :
    paso v (seg, []) v
| paso_inicio v seg t :
    t <> [] -> detectar_comando t = Some inicio_cmd ->
    paso v (seg, t) (Variables true (en_acta v) (acta_segmentos v))
| paso_espera v seg t :
    t <> [] -> detectar_comando t <> Some inicio_cmd ->
    estado_activo v = false ->
    paso v (seg, t) v
| paso_activar v seg t :
    t <> [] -> detectar_comando t = Some activar_cmd ->
    estado_activo v = true ->
    paso v (seg, t) (Variables (estado_activo v) true (acta_segmentos v))
| paso_desactivar v seg t :
    t <> [] -> detectar_comando t = Some desactivar_cmd ->
    estado_activo v = true ->
    paso v (seg, t)
      (Variables (estado_activo v) false
         (acta_segmentos v ++
          [Entrada (seg_inicio seg) (seg_fin seg) t (buscar_keywords t)
             tipo_comando]))
| paso_contenido v seg t :
    t <> [] -> detectar_comando t = None ->
    estado_activo v = true -> en_acta v = true ->
    paso v (seg, t)
      (Variables (estado_activo v) (en_acta v)
         (acta_segmentos v ++
          [Entrada (seg_inicio seg) (seg_fin seg) (capitalize t)
             (buscar_keywords t) tipo_contenido]))
| paso_fuera v seg t :
    t <> [] -> detectar_comando t = None ->
    estado_activo v = true -> en_acta v = false ->
    paso v (seg, t) v.

Inductive corrida : variables -> list (segmento * str) -> variables -> Prop :=
| corrida_fin v :
    corrida v [] v
| corrida_paso v x v' xs v'' :
    paso v x v' -> corrida v' xs v'' -> corrida v (x :: xs) v''.

End Maquina.


(** ** Specification-side notions *)

(** [sub] occurs in [s] as a contiguous block. *)
Definition ocurre (sub s : str) : Prop :=
  exists pre post, s = pre ++ sub ++ post.

(** Some phrase of [frases] occurs in the lower-cased [texto]: the
    case-insensitive match of a phrase set. *)
Definition alguna_ocurre (lower : str -> str) (frases : list str)
  (texto : str) : Prop :=
  exists f, f ∈ frases /\ ocurre f (lower texto).

(** Time stamps in strictly increasing order: every earlier one is below
    every later one, for the comparison of floats. *)
Definition en_orden (l : list float) : Prop :=
  forall (i j : nat) (a b : float),
    (i < j)%nat -> l !! i = Some a -> l !! j = Some b ->
    PrimFloat.ltb a b = true.

(** The time window of a segment and of an entry. *)
Definition ventana_segmento (x : segmento * str) : float * float :=
  (seg_inicio (fst x), seg_fin (fst x)).
Definition ventana_entrada (e : entrada) : float * float :=
  (inicio e, fin e).

(** ** Sample data *)

(** The [k]-th window of a recording cut every three seconds. *)
Definition ventana (k : nat) : segmento :=
  let a := (PrimFloat.of_uint63 (Uint63.of_Z (Z.of_nat k)) * 3)%float in
  Segmento a (a + 3)%float 3%float [].

(** Scenario A of the specification, on the first four windows. *)
Definition escenario_A : list (segmento * str) :=
  [(ventana 0, lit "se inicia la sesión");
   (ventana 1, lit "en acta");
   (ventana 2, lit "hablamos de riesgo en la obra");
   (ventana 3, lit "fuera de acta")].


(** ** The renderers

    What [generar_acta_txt] writes to its file and the table that
    [generar_acta_pdf] hands to the document builder, as functions of
    the minutes.  The format [{x:.1f}] of a float is a builtin of the
    interpreter and is a Section variable. *)

(** The line feed. *)
Definition nl : str := [10].

(** [sep.join(l)]. *)
Fixpoint join (sep : str) (l : list str) : str :=
  match l with
  | [] => []
  | [x] => x
  | x :: r => x ++ sep ++ join sep r
  end.

(** Truth value of a list: [not l] holds of the empty list only. *)
Definition sin_matches (l : list str) : bool :=
  match l with [] => true | _ :: _ => false end.

Section Salidas.

Variable fmt_1f : float -> str.

(** The string [tiempo] of both renderers. *)
Definition tiempo_de (seg : entrada) : str :=
  fmt_1f (inicio seg) ++ lit "s - " ++ fmt_1f (fin seg) ++ lit "s".

(** The [f.write] calls of one round of the loop of [generar_acta_txt]. *)
Definition escribe_entrada (seg : entrada) : list str :=
  [lit "Tiempo: " ++ tiempo_de seg ++ nl;
   lit "Transcripción: " ++ transcripcion seg ++ nl]
  ++ (if sin_matches (matches seg) then []
      else [lit "Keywords: " ++ join (lit ", ") (matches seg) ++ nl])
  ++ [repeat 45 40 ++ nl ++ nl].

(** All the [f.write] calls of [generar_acta_txt], in order. *)
Definition escrituras_txt (acta_segmentos : list entrada) : list str :=
  [lit "ACTA DE REUNIÓN INTELIGENTE (Solo Partes 'En Acta')" ++ nl;
   repeat 61 50 ++ nl ++ nl;
   lit "Fecha: Automática" ++ nl ++ nl]
  ++ flat_map escribe_entrada acta_segmentos
  ++ [lit "Resumen: Solo contenido relevante procesado." ++ nl].

(** The text of the file that [generar_acta_txt] leaves. *)
Definition generar_acta_txt (acta_segmentos : list entrada) : str :=
  concat (escrituras_txt acta_segmentos).

(** The cell [trans] of a row of the table. *)
Definition celda_trans (seg : entrada) : str :=
  if (60 <? length (transcripcion seg))%nat
  then take 60 (transcripcion seg) ++ lit "..."
  else transcripcion seg.

(** The cell [kws] of a row of the table. *)
Definition celda_kws (seg : entrada) : str :=
  if sin_matches (matches seg) then lit "Ninguno"
  else join (lit ", ") (matches seg).

(** The list [data] that [generar_acta_pdf] gives to [Table]. *)
Definition generar_acta_pdf (acta_segmentos : list entrada)
  : list (list str) :=
  [lit "Tiempo"; lit "Transcripción"; lit "Keywords"]
  :: List.map (fun seg => [tiempo_de seg; celda_trans seg; celda_kws seg])
       acta_segmentos.

End Salidas.

(** What [main] renders from the transcribed windows: nothing when the
    minutes are empty, else the text file and the table. *)
Definition main (lower capitalize : str -> str) (fmt_1f : float -> str)
  (xs : list (segmento * str)) : option (str * list (list str)) :=
  let acta_segmentos := procesar_audio_con_comandos lower capitalize xs in
  match acta_segmentos with
  | [] => None
  | _ :: _ =>
      Some (generar_acta_txt fmt_1f acta_segmentos,
            generar_acta_pdf fmt_1f acta_segmentos)
  end.

(** A window whose transcript reaches the classifier with result [c]. *)
Definition es_comando (lower : str -> str) (c : comando)
  (x : segmento * str) : Prop :=
  snd x <> [] /\ detectar_comando lower (snd x) = Some c.

(** Scenario B of the specification: nobody opens the session. *)
Definition escenario_B : list (segmento * str) :=
  [(ventana 0, lit "hola");
   (ventana 1, lit "en acta");
   (ventana 2, lit "texto")].

(** The two entries of the minutes of scenario A. *)
Definition entrada_A3 : entrada :=
  Entrada 6%float 9%float (lit "Hablamos de riesgo en la obra")
    [lit "obra"; lit "riesgo"] tipo_contenido.
Definition entrada_A4 : entrada :=
  Entrada 9%float 12%float (lit "fuera de acta") [lit "acta"] tipo_comando.

(** A stand-in for the float format in sample renderings. *)
Definition fmt_muestra (x : float) : str := lit "0.0".

(** ** Literals *)

Example lit_sesion :
  lit "sesión" = [115; 101; 115; 105; 243; 110].
Proof. reflexivity. Qed.

(** ** Substring search *)

Lemma empieza_con_spec (sub s : str) :
  empieza_con sub s = true <-> exists post, s = sub ++ post.
Proof.
  revert s. induction sub as [|a sub IH]; intros s; simpl.
  - split; [intros _; by exists s | done].
  - destruct s as [|b s].
    + split; [done | by intros [post H]].
    + rewrite andb_true_iff, N.eqb_eq, IH. split.
      * intros [-> [post ->]]. by exists post.
      * intros [post H]. injection H as -> ->. eauto.
Qed.

Lemma contiene_spec (sub s : str) :
  contiene sub s = true <-> ocurre sub s.
Proof.
  unfold ocurre. induction s as [|b s IH]; simpl.
  - rewrite orb_false_r, empieza_con_spec. split.
    + intros [post H]. by exists [], post.
    + intros [pre [post H]]. symmetry in H.
      apply app_eq_nil in H as [-> H]. by exists post.
  - rewrite orb_true_iff, empieza_con_spec, IH. split.
    + intros [[post H] | [pre [post H]]].
      * by exists [], post.
      * exists (b :: pre), post. by rewrite H.
    + intros [[|c pre] [post H]].
      * left. by exists post.
      * right. injection H as -> ->. by exists pre, post.
Qed.

Lemma existsb_contiene (lower : str -> str) (frases : list str) (texto : str) :
  existsb (fun cmd => contiene cmd (lower texto)) frases = true
  <-> alguna_ocurre lower frases texto.
Proof.
  unfold alguna_ocurre. rewrite existsb_exists. split.
  - intros [f [Hin Hc]]. exists f.
    by rewrite list_elem_of_In, <- contiene_spec.
  - intros [f [Hin Hc]]. exists f.
    by rewrite <- list_elem_of_In, contiene_spec.
Qed.

Lemma existsb_contiene_false (lower : str -> str) (frases : list str)
  (texto : str) :
  existsb (fun cmd => contiene cmd (lower texto)) frases = false
  <-> ~ alguna_ocurre lower frases texto.
Proof.
  rewrite <- existsb_contiene. destruct (existsb _ _); split; congruence.
Qed.

(** For the Latin-1 [lower], a phrase occurs in the lower-cased text
    exactly when some block of the text lower-cases to it. *)
Lemma ocurre_lower_latin1 (f t : str) :
  ocurre f (lower_latin1 t) <->
  exists pre s post, t = pre ++ s ++ post /\ lower_latin1 s = f.
Proof.
  unfold ocurre, lower_latin1. split.
  - intros [pre' [post' H]].
    apply fmap_app_inv in H as (pre & r & -> & Hr & ->). symmetry in Hr.
    apply fmap_app_inv in Hr as (m & post & -> & -> & ->).
    by exists pre, m, post.
  - intros (pre & m & post & -> & <-).
    exists (lower_cp <$> pre), (lower_cp <$> post).
    by rewrite !map_app.
Qed.

(** C4. [detectar_comando] tries the phrase sets in the order
    COMANDOS_INICIO, COMANDO_ACTIVAR, COMANDO_DESACTIVAR and answers with
    the first set one of whose phrases occurs in the lower-cased text,
    [None] when none does; in particular a text with a session-start
    phrase is classified "inicio" whatever else occurs in it. *)
Theorem detectar_comando_prioridad (lower : str -> str) (texto : str) :
  (detectar_comando lower texto = Some inicio_cmd <->
   alguna_ocurre lower COMANDOS_INICIO texto) /\
  (detectar_comando lower texto = Some activar_cmd <->
   ~ alguna_ocurre lower COMANDOS_INICIO texto /\
   alguna_ocurre lower COMANDO_ACTIVAR texto) /\
  (detectar_comando lower texto = Some desactivar_cmd <->
   ~ alguna_ocurre lower COMANDOS_INICIO texto /\
   ~ alguna_ocurre lower COMANDO_ACTIVAR texto /\
   alguna_ocurre lower COMANDO_DESACTIVAR texto) /\
  (detectar_comando lower texto = None <->
   ~ alguna_ocurre lower COMANDOS_INICIO texto /\
   ~ alguna_ocurre lower COMANDO_ACTIVAR texto /\
   ~ alguna_ocurre lower COMANDO_DESACTIVAR texto).
Proof.
  unfold detectar_comando.
  rewrite <- !existsb_contiene_false, <- !existsb_contiene.
  destruct (existsb _ COMANDOS_INICIO), (existsb _ COMANDO_ACTIVAR),
    (existsb _ COMANDO_DESACTIVAR); intuition congruence.
Qed.

(** A text with phrases of all three sets, in mixed case. *)
Lemma detectar_comando_prioridad_witness :
  detectar_comando lower_latin1 (lit "Fuera de acta, en acta: INICIAMOS")
  = Some inicio_cmd.
Proof.
  apply (proj1 (detectar_comando_prioridad lower_latin1
                  (lit "Fuera de acta, en acta: INICIAMOS"))).
  exists (lit "iniciamos"). split.
  - unfold COMANDOS_INICIO. apply list_elem_of_In. simpl. tauto.
  - exists (lit "fuera de acta, en acta: "), []. reflexivity.
Defined.

(** ** Runs of the loop *)

(** Case analysis along the tests of the loop body. *)
Ltac abrir_iteracion :=
  unfold anadidos, iteracion; simpl;
  repeat (case_match; simpl in *; subst; try congruence);
  rewrite ?drop_app_length, ?drop_all.

Section Corridas.

Variable lower : str -> str.
Variable capitalize : str -> str.

Abbreviation iter := (iteracion lower capitalize).
Abbreviation lazo := (bucle lower capitalize).
Abbreviation v0 := variables_iniciales.

Lemma bucle_app (xs ys : list (segmento * str)) (v : variables) :
  lazo (xs ++ ys) v = lazo ys (lazo xs v).
Proof. unfold bucle. apply fold_left_app. Qed.

Lemma bucle_cons (x : segmento * str) (xs : list (segmento * str))
  (v : variables) :
  lazo (x :: xs) v = lazo xs (iter v x).
Proof. reflexivity. Qed.

Lemma al_llegar_S (xs : list (segmento * str)) (i : nat) (x : segmento * str) :
  xs !! i = Some x ->
  al_llegar lower capitalize xs (S i)
  = iter (al_llegar lower capitalize xs i) x.
Proof.
  intros Hx. unfold al_llegar.
  by rewrite (take_S_r _ _ _ Hx), bucle_app.
Qed.

(** The iteration only ever appends. *)
Lemma acta_iteracion (v : variables) (x : segmento * str) :
  acta_segmentos (iter v x)
  = acta_segmentos v ++ anadidos lower capitalize v x.
Proof.
  destruct x as [seg t]. abrir_iteracion; by rewrite ?app_nil_r.
Qed.

Lemma acta_bucle (xs : list (segmento * str)) (v : variables) :
  acta_segmentos (lazo xs v)
  = acta_segmentos v ++ concat (emitidos lower capitalize v xs).
Proof.
  revert v. induction xs as [|x xs IH]; intros v.
  - simpl. by rewrite app_nil_r.
  - rewrite bucle_cons, IH, acta_iteracion. simpl. by rewrite <- app_assoc.
Qed.

(** The minutes are the contributions of the windows, in window order. *)
Lemma procesar_emitidos (xs : list (segmento * str)) :
  procesar_audio_con_comandos lower capitalize xs
  = concat (emitidos lower capitalize v0 xs).
Proof. unfold procesar_audio_con_comandos. by rewrite acta_bucle. Qed.

Lemma length_emitidos (xs : list (segmento * str)) (v : variables) :
  length (emitidos lower capitalize v xs) = length xs.
Proof. revert v. induction xs; intros v; simpl; auto. Qed.

Lemma emitidos_lookup (xs : list (segmento * str)) (v : variables) (i : nat)
  (x : segmento * str) :
  xs !! i = Some x ->
  emitidos lower capitalize v xs !! i
  = Some (anadidos lower capitalize (lazo (take i xs) v) x).
Proof.
  revert v i. induction xs as [|y xs IH]; intros v [|i] Hx; try done.
  - by injection Hx as ->.
  - simpl in *. by rewrite IH.
Qed.

Lemma emitidos_al_llegar (xs : list (segmento * str)) (i : nat)
  (x : segmento * str) :
  xs !! i = Some x ->
  emitidos lower capitalize v0 xs !! i
  = Some (anadidos lower capitalize (al_llegar lower capitalize xs i) x).
Proof. apply emitidos_lookup. Qed.

(** A window contributes nothing or one entry carrying its time stamps. *)
Lemma anadidos_forma (v : variables) (x : segmento * str) :
  anadidos lower capitalize v x = [] \/
  exists e, anadidos lower capitalize v x = [e] /\
            ventana_entrada e = ventana_segmento x.
Proof.
  destruct x as [seg t]. abrir_iteracion; eauto.
Qed.

(** C8. A window with an empty transcript leaves the loop variables as
    they are, so neither flag changes and nothing is appended; the run
    goes on as if the window were absent. *)
Theorem transcripcion_vacia_se_omite (v : variables) (seg : segmento)
  (pre post : list (segmento * str)) :
  iter v (seg, []) = v /\
  anadidos lower capitalize v (seg, []) = [] /\
  lazo (pre ++ (seg, []) :: post) v = lazo (pre ++ post) v.
Proof.
  split; [reflexivity|]. split.
  - unfold anadidos. simpl. apply drop_all.
  - by rewrite !bucle_app.
Qed.

(** C2. In every run, a window whose transcript is classified "inicio" or
    "activar" contributes no entry, whatever the flags are when it is
    reached. *)
Theorem inicio_y_activar_no_se_emiten (xs : list (segmento * str)) (i : nat)
  (seg : segmento) (t : str) :
  xs !! i = Some (seg, t) ->
  detectar_comando lower t = Some inicio_cmd \/
  detectar_comando lower t = Some activar_cmd ->
  emitidos lower capitalize v0 xs !! i = Some [] /\
  forall v, acta_segmentos (iter v (seg, t)) = acta_segmentos v.
Proof.
  intros Hx Hc.
  assert (Hv : forall v, anadidos lower capitalize v (seg, t) = []).
  { intros v. destruct Hc as [Hc|Hc]; abrir_iteracion; done. }
  split.
  - by rewrite (emitidos_al_llegar _ _ _ Hx), Hv.
  - intros v. by rewrite acta_iteracion, Hv, app_nil_r.
Qed.

(** C5. In every run, a window contributes an entry of type 'contenido'
    only when both [estado_activo] and [en_acta] hold as it is reached. *)
Theorem contenido_solo_en_acta (xs : list (segmento * str)) (i : nat)
  (x : segmento * str) (es : list entrada) (e : entrada) :
  xs !! i = Some x ->
  emitidos lower capitalize v0 xs !! i = Some es ->
  e ∈ es ->
  tipo e = tipo_contenido ->
  estado_activo (al_llegar lower capitalize xs i) = true /\
  en_acta (al_llegar lower capitalize xs i) = true.
Proof.
  intros Hx Hes He Ht.
  rewrite (emitidos_al_llegar _ _ _ Hx) in Hes. injection Hes as <-.
  revert He. generalize (al_llegar lower capitalize xs i). intros v.
  destruct x as [seg t]. abrir_iteracion; intros He;
    try (by apply elem_of_nil in He);
    apply list_elem_of_singleton in He; subst; simpl in *;
    try discriminate.
  all: destruct (estado_activo v), (en_acta v); simpl in *; auto; discriminate.
Qed.

(** *** The session flag *)

Lemma estado_activo_se_conserva (v : variables) (x : segmento * str) :
  estado_activo v = true -> estado_activo (iter v x) = true.
Proof. destruct x as [seg t]. intros Hv. abrir_iteracion. Qed.

Lemma estado_activo_desde_v (xs : list (segmento * str)) (v : variables) :
  estado_activo v = true -> estado_activo (lazo xs v) = true.
Proof.
  revert v. induction xs as [|x xs IH]; intros v Hv; [done|].
  rewrite bucle_cons. by apply IH, estado_activo_se_conserva.
Qed.

Lemma al_llegar_fin (xs : list (segmento * str)) (j : nat) :
  (length xs <= j)%nat ->
  al_llegar lower capitalize xs j = lazo xs v0.
Proof. intros Hj. unfold al_llegar. by rewrite take_ge. Qed.

Lemma estado_activo_desde (xs : list (segmento * str)) (k j : nat) :
  (k <= j)%nat ->
  estado_activo (al_llegar lower capitalize xs k) = true ->
  estado_activo (al_llegar lower capitalize xs j) = true.
Proof.
  intros Hkj Hk. induction Hkj as [|j Hkj IH]; [done|].
  destruct (xs !! j) as [x|] eqn:Hx.
  - rewrite (al_llegar_S _ _ _ Hx). by apply estado_activo_se_conserva.
  - apply lookup_ge_None in Hx.
    rewrite al_llegar_fin by lia. by rewrite <- (al_llegar_fin xs j).
Qed.

(** *** Keywords *)

Lemma buscar_keywords_spec (t kw : str) :
  kw ∈ buscar_keywords lower t <->
  kw ∈ PALABRAS_CLAVE /\ ocurre kw (lower t).
Proof.
  unfold buscar_keywords.
  by rewrite list_elem_of_In, filter_In, <- list_elem_of_In, contiene_spec.
Qed.

(** *** Order of the output *)

Lemma en_orden_cons (a : float) (l : list float) :
  en_orden (a :: l) <->
  Forall (fun b => PrimFloat.ltb a b = true) l /\ en_orden l.
Proof.
  unfold en_orden. split.
  - intros H. split.
    + apply Forall_lookup. intros j b Hb. by apply (H O (S j) a b); [lia| |].
    + intros i j b c Hij Hb Hc. by apply (H (S i) (S j) b c); [lia| |].
  - intros [Hall H] i j b c Hij Hb Hc.
    destruct j as [|j]; [lia|]. simpl in Hc.
    destruct i as [|i]; simpl in Hb.
    + injection Hb as <-. by apply (proj1 (Forall_lookup _ _) Hall j).
    + apply (H i j); [lia|done..].
Qed.

Lemma en_orden_sublist (l1 l2 : list float) :
  l1 `sublist_of` l2 -> en_orden l2 -> en_orden l1.
Proof.
  induction 1 as [|a l1 l2 Hsub IH|a l1 l2 Hsub IH]; [done|..].
  - rewrite !en_orden_cons. intros [Hall H2]. split; [|auto].
    apply Forall_forall. intros b Hb.
    apply (proj1 (Forall_forall _ _) Hall).
    by apply (elem_of_sublist l1).
  - rewrite en_orden_cons. intros [_ H2]. auto.
Qed.

Lemma ventanas_emitidos (xs : list (segmento * str)) (v : variables) :
  (ventana_entrada <$> concat (emitidos lower capitalize v xs))
    `sublist_of` (ventana_segmento <$> xs).
Proof.
  revert v. induction xs as [|x xs IH]; intros v; simpl; [constructor|].
  rewrite fmap_app.
  destruct (anadidos_forma v x) as [->|[e [-> He]]]; simpl.
  - apply sublist_cons, IH.
  - rewrite He. apply sublist_skip, IH.
Qed.

(** Before the session starts the minutes are empty, and afterwards they
    are shorter than the number of windows read: the window that started
    the session is not in them. *)
Lemma cuenta_iteracion (v : variables) (x : segmento * str) (n : nat) :
  (length (acta_segmentos v) + (if estado_activo v then 1 else 0) <= n)%nat /\
  (estado_activo v = false -> acta_segmentos v = []) ->
  (length (acta_segmentos (iter v x))
   + (if estado_activo (iter v x) then 1 else 0) <= S n)%nat /\
  (estado_activo (iter v x) = false -> acta_segmentos (iter v x) = []).
Proof.
  destruct x as [seg t]. intros [Hn Hv].
  destruct (estado_activo v) eqn:Ha.
  - abrir_iteracion; rewrite ?length_app; simpl; split; (lia || done).
  - pose proof (Hv eq_refl) as Hnil.
    abrir_iteracion; rewrite ?Hnil in *; simpl in *; split; (lia || done).
Qed.

Lemma cuenta_bucle (xs : list (segmento * str)) (v : variables) (n : nat) :
  (length (acta_segmentos v) + (if estado_activo v then 1 else 0) <= n)%nat /\
  (estado_activo v = false -> acta_segmentos v = []) ->
  (length (acta_segmentos (lazo xs v))
   + (if estado_activo (lazo xs v) then 1 else 0) <= n + length xs)%nat /\
  (estado_activo (lazo xs v) = false -> acta_segmentos (lazo xs v) = []).
Proof.
  revert v n. induction xs as [|x xs IH]; intros v n H.
  - simpl. by rewrite Nat.add_0_r.
  - rewrite bucle_cons. simpl length.
    replace (n + S (length xs))%nat with (S n + length xs)%nat by lia.
    by apply IH, cuenta_iteracion.
Qed.

(** X15. A non-empty input is never kept whole: the minutes have fewer
    entries than the recording has windows, since the window that opens
    the session is never in them. *)
Lemma acta_mas_corta (xs : list (segmento * str)) :
  xs <> [] ->
  (length (procesar_audio_con_comandos lower capitalize xs) < length xs)%nat.
Proof.
  intros Hne. unfold procesar_audio_con_comandos.
  destruct (cuenta_bucle xs v0 0) as [Hn Hv]; [by split|].
  destruct (estado_activo (lazo xs v0)); [lia|].
  rewrite Hv by done. destruct xs; [done|simpl; lia].
Qed.

(** C6. The minutes are an order-preserving subsequence of the windows:
    they are the concatenation, in window order, of what each window
    contributes; a window contributes at most one entry, which carries
    the time stamps of that window; so the time windows of the entries
    are obtained from those of the input by deleting some, and when the
    input starts are strictly increasing so are the starts of the
    entries. *)
Theorem acta_es_subsecuencia (xs : list (segmento * str)) :
  en_orden (seg_inicio ∘ fst <$> xs) ->
  procesar_audio_con_comandos lower capitalize xs
  = concat (emitidos lower capitalize v0 xs) /\
  length (emitidos lower capitalize v0 xs) = length xs /\
  (forall i x es,
     xs !! i = Some x ->
     emitidos lower capitalize v0 xs !! i = Some es ->
     es = [] \/ exists e, es = [e] /\ ventana_entrada e = ventana_segmento x) /\
  (ventana_entrada <$> procesar_audio_con_comandos lower capitalize xs)
    `sublist_of` (ventana_segmento <$> xs) /\
  en_orden (inicio <$> procesar_audio_con_comandos lower capitalize xs).
Proof.
  intros Hord. split; [apply procesar_emitidos|].
  split; [apply length_emitidos|]. split; [|split].
  - intros i x es Hx Hes.
    rewrite (emitidos_al_llegar _ _ _ Hx) in Hes. injection Hes as <-.
    apply anadidos_forma.
  - rewrite procesar_emitidos. apply ventanas_emitidos.
  - apply (en_orden_sublist _ (seg_inicio ∘ fst <$> xs)); [|done].
    rewrite procesar_emitidos.
    pose proof (ventanas_emitidos xs v0) as Hsub.
    apply (fmap_sublist fst) in Hsub.
    by rewrite <- !list_fmap_compose in Hsub.
Qed.

End Corridas.

(** ** Commands that need a transcript

    An empty transcript is skipped before it is classified.  With
    [lower] sending the empty string to itself, as [str.lower] does, the
    empty string holds no phrase, so a classified transcript is not empty. *)

Section Comandos.

Variable lower : str -> str.
Variable capitalize : str -> str.
Hypothesis lower_vacio : lower [] = [].

Abbreviation iter := (iteracion lower capitalize).
Abbreviation llegar := (al_llegar lower capitalize).
Abbreviation v0 := variables_iniciales.

Lemma detectar_comando_vacia : detectar_comando lower [] = None.
Proof. unfold detectar_comando. by rewrite lower_vacio. Qed.

Lemma comando_no_vacia (t : str) (c : comando) :
  detectar_comando lower t = Some c -> vacia t = false.
Proof.
  destruct t; [|done]. by rewrite detectar_comando_vacia.
Qed.


(** C10. The loop never clears [estado_activo]: an iteration that starts
    with it set ends with it set, so in every run each window after one
    classified "inicio" is reached with the flag set, and so is the end
    of the run. *)
Theorem sesion_no_se_cierra (xs : list (segmento * str)) (i : nat)
  (seg : segmento) (t : str) :
  xs !! i = Some (seg, t) ->
  detectar_comando lower t = Some inicio_cmd ->
  (forall v x, estado_activo v = true -> estado_activo (iter v x) = true) /\
  (forall j, (i < j)%nat -> estado_activo (llegar xs j) = true) /\
  estado_activo (bucle lower capitalize xs v0) = true.
Proof.
  intros Hx Hc.
  assert (Hi : estado_activo (llegar xs (S i)) = true).
  { rewrite (al_llegar_S _ _ _ _ _ Hx).
    unfold iteracion. simpl. by rewrite (comando_no_vacia _ _ Hc), Hc. }
  split; [apply estado_activo_se_conserva|]. split.
  - intros j Hj. by apply (estado_activo_desde _ _ xs (S i) j).
  - rewrite <- (al_llegar_fin _ _ xs (S i + length xs)) by lia.
    apply (estado_activo_desde _ _ xs (S i)); [lia|done].
Qed.

End Comandos.

(** ** The loop as a relation *)

Section Relacion.

Variable lower : str -> str.
Variable capitalize : str -> str.

Abbreviation da_paso := (paso lower capitalize).
Abbreviation corre := (corrida lower capitalize).

(** The function follows the rules. *)
Lemma paso_iteracion (v : variables) (x : segmento * str) :
  da_paso v x (iteracion lower capitalize v x).
Proof.
  destruct x as [seg [|c t]]; [constructor|].
  unfold iteracion. simpl.
  destruct (detectar_comando lower (c :: t)) as [[]|] eqn:Hc;
    [by constructor|..];
    (destruct (negb (estado_activo v)) eqn:Ha;
     [apply negb_true_iff in Ha; constructor; congruence
     |apply negb_false_iff in Ha]);
    [by constructor..|].
  destruct (en_acta v && true) eqn:He; rewrite andb_true_r in He;
    by constructor.
Qed.

(** At most one rule applies, and with one result. *)
Lemma paso_determinista (v v1 v2 : variables) (x : segmento * str) :
  da_paso v x v1 -> da_paso v x v2 -> v1 = v2.
Proof.
  inversion 1; subst; inversion 1; subst; congruence.
Qed.

Lemma corrida_bucle (xs : list (segmento * str)) (v : variables) :
  corre v xs (bucle lower capitalize xs v).
Proof.
  revert v. induction xs as [|x xs IH]; intros v; [constructor|].
  econstructor; [apply paso_iteracion|apply IH].
Qed.

Lemma corrida_determinista (xs : list (segmento * str))
  (v v1 v2 : variables) :
  corre v xs v1 -> corre v xs v2 -> v1 = v2.
Proof.
  intros H1. revert v2. induction H1 as [v|v x v' xs v'' Hp Hc IH];
    intros v2 H2; inversion H2; subst; [done|].
  apply IH. by rewrite (paso_determinista _ _ _ _ Hp H3).
Qed.

(** C9. Two runs of the loop over the same windows and transcripts, both
    from the initial variables, end with the same variables, hence the
    same minutes, which are the ones the function returns. *)
Theorem procesar_determinista (xs : list (segmento * str))
  (v1 v2 : variables) :
  corre variables_iniciales xs v1 ->
  corre variables_iniciales xs v2 ->
  v1 = v2 /\
  acta_segmentos v1 = procesar_audio_con_comandos lower capitalize xs /\
  acta_segmentos v2 = procesar_audio_con_comandos lower capitalize xs.
Proof.
  intros H1 H2. unfold procesar_audio_con_comandos.
  pose proof (corrida_bucle xs variables_iniciales) as H0.
  rewrite (corrida_determinista _ _ _ _ H1 H0).
  by rewrite (corrida_determinista _ _ _ _ H2 H0).
Qed.

End Relacion.

(** ** Concrete runs *)

Example ventana_2 : ventana 2 = Segmento 6%float 9%float 3%float [].
Proof. reflexivity. Qed.

(** C1. On the transcripts "se inicia la sesión", "en acta", "hablamos de
    riesgo en la obra", "fuera de acta" the loop returns two entries: one
    of type 'contenido' for the third window with keywords obra and
    riesgo, then one of type 'comando' for the fourth; the first two
    windows contribute nothing. *)
Theorem escenario_A_dos_entradas (s1 s2 s3 s4 : segmento) :
  let xs := [(s1, lit "se inicia la sesión"); (s2, lit "en acta");
             (s3, lit "hablamos de riesgo en la obra");
             (s4, lit "fuera de acta")] in
  let e3 := Entrada (seg_inicio s3) (seg_fin s3)
              (lit "Hablamos de riesgo en la obra")
              [lit "obra"; lit "riesgo"] tipo_contenido in
  let e4 := Entrada (seg_inicio s4) (seg_fin s4) (lit "fuera de acta")
              [lit "acta"] tipo_comando in
  procesar_audio_con_comandos lower_latin1 capitalize_latin1 xs = [e3; e4] /\
  emitidos lower_latin1 capitalize_latin1 variables_iniciales xs
  = [[]; []; [e3]; [e4]] /\
  length (procesar_audio_con_comandos lower_latin1 capitalize_latin1 xs) = 2%nat.
Proof. intros xs e3 e4. split; [reflexivity|]. split; reflexivity. Qed.

(** The "en acta" window of scenario A. *)
Lemma inicio_y_activar_no_se_emiten_witness :
  emitidos lower_latin1 capitalize_latin1 variables_iniciales escenario_A
    !! 1%nat = Some [] /\
  forall v,
    acta_segmentos
      (iteracion lower_latin1 capitalize_latin1 v (ventana 1, lit "en acta"))
    = acta_segmentos v.
Proof.
  apply (inicio_y_activar_no_se_emiten lower_latin1 capitalize_latin1
           escenario_A 1 (ventana 1) (lit "en acta")).
  - reflexivity.
  - right. reflexivity.
Defined.


(** The content window of scenario A. *)
Lemma contenido_solo_en_acta_witness :
  estado_activo (al_llegar lower_latin1 capitalize_latin1 escenario_A 2)
  = true /\
  en_acta (al_llegar lower_latin1 capitalize_latin1 escenario_A 2) = true.
Proof.
  apply (contenido_solo_en_acta lower_latin1 capitalize_latin1 escenario_A 2
           (ventana 2, lit "hablamos de riesgo en la obra")
           [Entrada 6%float 9%float (lit "Hablamos de riesgo en la obra")
              [lit "obra"; lit "riesgo"] tipo_contenido]
           (Entrada 6%float 9%float (lit "Hablamos de riesgo en la obra")
              [lit "obra"; lit "riesgo"] tipo_contenido)).
  - reflexivity.
  - reflexivity.
  - apply list_elem_of_singleton. reflexivity.
  - reflexivity.
Defined.

Lemma en_orden_escenario_A : en_orden (seg_inicio ∘ fst <$> escenario_A).
Proof.
  repeat (apply en_orden_cons; split; [repeat constructor|]).
  intros i j a b _ Hi. destruct i; discriminate Hi.
Defined.

(** Scenario A on windows starting at 0, 3, 6 and 9 seconds. *)
Lemma acta_es_subsecuencia_witness :
  (ventana_entrada
     <$> procesar_audio_con_comandos lower_latin1 capitalize_latin1 escenario_A)
    `sublist_of` (ventana_segmento <$> escenario_A) /\
  en_orden
    (inicio
       <$> procesar_audio_con_comandos lower_latin1 capitalize_latin1
             escenario_A).
Proof.
  destruct (acta_es_subsecuencia lower_latin1 capitalize_latin1 escenario_A
              en_orden_escenario_A) as (_ & _ & _ & Hsub & Hord).
  split; assumption.
Defined.

(** Scenario A opens the session on its first window. *)
Lemma sesion_no_se_cierra_witness :
  estado_activo (al_llegar lower_latin1 capitalize_latin1 escenario_A 3)
  = true /\
  estado_activo
    (bucle lower_latin1 capitalize_latin1 escenario_A variables_iniciales)
  = true.
Proof.
  destruct (sesion_no_se_cierra lower_latin1 capitalize_latin1 eq_refl
              escenario_A 0 (ventana 0) (lit "se inicia la sesión")
              eq_refl eq_refl) as (_ & Hj & Hfin).
  split; [apply (Hj 3%nat); lia | exact Hfin].
Defined.

(** The run of scenario A that the function computes. *)
Lemma procesar_determinista_witness :
  acta_segmentos (bucle lower_latin1 capitalize_latin1 escenario_A
                    variables_iniciales)
  = procesar_audio_con_comandos lower_latin1 capitalize_latin1 escenario_A.
Proof.
  apply (procesar_determinista lower_latin1 capitalize_latin1 escenario_A
           (bucle lower_latin1 capitalize_latin1 escenario_A
              variables_iniciales)
           (bucle lower_latin1 capitalize_latin1 escenario_A
              variables_iniciales)).
  - apply corrida_bucle.
  - apply corrida_bucle.
Defined.

(** ** The flags in terms of the commands heard so far *)

Section Historia.

Variable lower : str -> str.
Variable capitalize : str -> str.

Abbreviation iter := (iteracion lower capitalize).
Abbreviation lazo := (bucle lower capitalize).
Abbreviation llegar := (al_llegar lower capitalize).
Abbreviation v0 := variables_iniciales.
Abbreviation es := (es_comando lower).

Lemma vacia_spec (t : str) : vacia t = false <-> t <> [].
Proof. by destruct t. Qed.

(** How one iteration moves [estado_activo]. *)
Lemma estado_activo_iteracion (v : variables) (x : segmento * str) :
  estado_activo (iter v x) = true <->
  estado_activo v = true \/ es inicio_cmd x.
Proof.
  destruct x as [seg t]. unfold es_comando, iteracion. simpl.
  destruct t as [|c t]; simpl; [intuition congruence|].
  destruct v as [a e acta].
  destruct (detectar_comando lower (c :: t)) as [[]|];
    destruct a, e; simpl; intuition congruence.
Qed.

(** How one iteration moves [en_acta]. *)
Lemma en_acta_iteracion (v : variables) (x : segmento * str) :
  en_acta (iter v x) = true <->
  (es activar_cmd x /\ estado_activo v = true) \/
  (en_acta v = true /\ ~ (es desactivar_cmd x /\ estado_activo v = true)).
Proof.
  destruct x as [seg t]. unfold es_comando, iteracion. simpl.
  destruct t as [|c t]; simpl; [intuition congruence|].
  destruct v as [a e acta].
  destruct (detectar_comando lower (c :: t)) as [[]|];
    destruct a, e; simpl; intuition congruence.
Qed.

Lemma al_llegar_0 (xs : list (segmento * str)) : llegar xs 0 = v0.
Proof. unfold al_llegar. by rewrite take_0. Qed.

Lemma al_llegar_S_None (xs : list (segmento * str)) (j : nat) :
  xs !! j = None -> llegar xs (S j) = llegar xs j.
Proof.
  intros Hj. apply lookup_ge_None in Hj.
  by rewrite !al_llegar_fin by lia.
Qed.

Lemma en_acta_bajo_sesion (xs : list (segmento * str)) (v : variables) :
  (en_acta v = true -> estado_activo v = true) ->
  en_acta (lazo xs v) = true -> estado_activo (lazo xs v) = true.
Proof.
  revert v. induction xs as [|x xs IH]; intros v Hv; [done|].
  rewrite bucle_cons. apply IH.
  rewrite en_acta_iteracion, estado_activo_iteracion. tauto.
Qed.

(** X1. Without a window classified "inicio" the loop leaves its
    variables as they were at the start: the minutes are empty and [main]
    renders nothing. *)
Theorem sin_inicio_no_hay_acta (fmt_1f : float -> str)
  (xs : list (segmento * str)) :
  (forall x, x ∈ xs -> ~ es inicio_cmd x) ->
  lazo xs v0 = v0 /\
  procesar_audio_con_comandos lower capitalize xs = [] /\
  main lower capitalize fmt_1f xs = None.
Proof.
  intros Hxs.
  assert (H0 : lazo xs v0 = v0).
  { induction xs as [|[seg t] xs IH]; [done|].
    rewrite bucle_cons.
    assert (Hx : iter v0 (seg, t) = v0).
    { specialize (Hxs (seg, t) (list_elem_of_here _ _)).
      unfold es_comando in Hxs. unfold iteracion. simpl in *.
      destruct t as [|c t]; [done|]. simpl.
      destruct (detectar_comando lower (c :: t)) as [[]|];
        [exfalso; apply Hxs; by split|done..]. }
    rewrite Hx. apply IH. intros x Hin. apply Hxs. by constructor. }
  unfold main, procesar_audio_con_comandos. by rewrite H0.
Qed.

(** X2. [estado_activo] holds on reaching window [j] exactly when some
    earlier window, with a non-empty transcript, was classified
    "inicio". *)
Theorem estado_activo_sii_hubo_inicio (xs : list (segmento * str)) (j : nat) :
  estado_activo (llegar xs j) = true <->
  exists i x, (i < j)%nat /\ xs !! i = Some x /\ es inicio_cmd x.
Proof.
  induction j as [|j IH].
  - rewrite al_llegar_0. simpl. split; [done|]. intros (i & x & Hi & _). lia.
  - destruct (xs !! j) as [x|] eqn:Hx.
    + rewrite (al_llegar_S _ _ _ _ _ Hx), estado_activo_iteracion, IH. split.
      * intros [(i & y & Hi & Hy & Hc)|Hc].
        -- exists i, y. split; [lia|done].
        -- exists j, x. split; [lia|done].
      * intros (i & y & Hi & Hy & Hc).
        destruct (decide (i = j)) as [->|Hne].
        -- right. congruence.
        -- left. exists i, y. split; [lia|done].
    + rewrite (al_llegar_S_None _ _ Hx), IH. split.
      * intros (i & y & Hi & Hy & Hc). exists i, y. split; [lia|done].
      * intros (i & y & Hi & Hy & Hc). exists i, y. split; [|done].
        apply lookup_lt_Some in Hy. apply lookup_ge_None in Hx. lia.
Qed.

(** X3. [en_acta] holds on reaching window [j] exactly when some earlier
    window classified "activar" was reached with the session open and no
    window classified "desactivar" lies between it and [j]. *)
Theorem en_acta_sii_ultimo_es_activar (xs : list (segmento * str)) (j : nat) :
  en_acta (llegar xs j) = true <->
  exists i x,
    (i < j)%nat /\ xs !! i = Some x /\ es activar_cmd x /\
    estado_activo (llegar xs i) = true /\
    forall k y, (i < k < j)%nat -> xs !! k = Some y -> ~ es desactivar_cmd y.
Proof.
  induction j as [|j IH].
  - rewrite al_llegar_0. simpl. split; [done|]. intros (i & x & Hi & _). lia.
  - destruct (xs !! j) as [x|] eqn:Hx.
    + rewrite (al_llegar_S _ _ _ _ _ Hx), en_acta_iteracion, IH. split.
      * intros [[Hc Ha]|[(i & y & Hi & Hy & Hc & Ha & Hno) Hd]].
        -- exists j, x. split_and!; [lia|done..|intros; lia].
        -- exists i, y. split_and!; [lia|done..|].
           intros k z Hk Hz. destruct (decide (k = j)) as [->|Hne].
           ++ intros Hz'. apply Hd. split; [congruence|].
              apply (estado_activo_desde _ _ xs i j); [lia|done].
           ++ apply (Hno k z); [lia|done].
      * intros (i & y & Hi & Hy & Hc & Ha & Hno).
        destruct (decide (i = j)) as [->|Hne].
        -- left. split; congruence.
        -- right. split.
           ++ exists i, y. split_and!; [lia|done..|].
              intros k z Hk Hz. apply (Hno k z); [lia|done].
           ++ intros [Hd _]. apply (Hno j x); [lia|done..].
    + rewrite (al_llegar_S_None _ _ Hx), IH.
      apply lookup_ge_None in Hx. split.
      * intros (i & y & Hi & Hy & Hc & Ha & Hno).
        exists i, y. split_and!; [lia|done..|].
        intros k z Hk Hz. pose proof (lookup_lt_Some _ _ _ Hz).
        apply (Hno k z); [lia|done].
      * intros (i & y & Hi & Hy & Hc & Ha & Hno).
        pose proof (lookup_lt_Some _ _ _ Hy).
        exists i, y. split_and!; [lia|done..|].
        intros k z Hk Hz. apply (Hno k z); [lia|done].
Qed.

(** X4. On every point of every run [en_acta] is set only if
    [estado_activo] is: the minutes are never open outside a session. *)
Theorem en_acta_solo_en_sesion (xs : list (segmento * str)) (j : nat) :
  en_acta (llegar xs j) = true -> estado_activo (llegar xs j) = true.
Proof. unfold al_llegar. by apply en_acta_bajo_sesion. Qed.

(** *** Where the entries come from *)

Lemma anadidos_procedencia (v : variables) (seg : segmento) (t : str)
  (e : entrada) :
  e ∈ anadidos lower capitalize v (seg, t) ->
  t <> [] /\ estado_activo v = true /\
  inicio e = seg_inicio seg /\ fin e = seg_fin seg /\
  matches e = buscar_keywords lower t /\
  ((tipo e = tipo_comando /\ transcripcion e = t /\
    detectar_comando lower t = Some desactivar_cmd) \/
   (tipo e = tipo_contenido /\ transcripcion e = capitalize t /\
    detectar_comando lower t = None /\ en_acta v = true)).
Proof.
  unfold anadidos, iteracion. simpl.
  destruct t as [|c t]; simpl; [by rewrite drop_all; intros ?%elem_of_nil|].
  destruct v as [a b acta].
  destruct (detectar_comando lower (c :: t)) as [[]|] eqn:Hc;
    destruct a, b; simpl; rewrite ?drop_all, ?drop_app_length;
    intros He; try (by apply elem_of_nil in He);
    apply list_elem_of_singleton in He; subst e; simpl;
    split_and!; try done;
    first [left; by split_and! | right; by split_and!].
Qed.

Lemma elem_of_procesar (xs : list (segmento * str)) (e : entrada) :
  e ∈ procesar_audio_con_comandos lower capitalize xs ->
  exists i x, xs !! i = Some x /\
              e ∈ anadidos lower capitalize (llegar xs i) x.
Proof.
  rewrite procesar_emitidos, list_elem_of_In, in_concat.
  intros (l & Hl & He). apply list_elem_of_In, list_elem_of_lookup in Hl.
  destruct Hl as [i Hi].
  pose proof (lookup_lt_Some _ _ _ Hi) as Hlt.
  rewrite length_emitidos in Hlt.
  destruct (lookup_lt_is_Some_2 xs i Hlt) as [x Hx].
  rewrite (emitidos_al_llegar _ _ _ _ _ Hx) in Hi. injection Hi as <-.
  exists i, x. by rewrite list_elem_of_In.
Qed.

Lemma ocurre_trans (a b c : str) : ocurre a b -> ocurre b c -> ocurre a c.
Proof.
  intros (p1 & q1 & ->) (p2 & q2 & ->).
  exists (p2 ++ p1), (q1 ++ q2). by rewrite <- !app_assoc.
Qed.

Lemma detectar_desactivar_ocurre (t : str) :
  detectar_comando lower t = Some desactivar_cmd ->
  alguna_ocurre lower COMANDO_DESACTIVAR t.
Proof.
  unfold detectar_comando. rewrite <- existsb_contiene.
  repeat case_match; congruence.
Qed.

Lemma acta_en_desactivar (f : str) :
  f ∈ COMANDO_DESACTIVAR -> ocurre (lit "acta") f.
Proof.
  unfold COMANDO_DESACTIVAR.
  rewrite !elem_of_cons, elem_of_nil. intros [->|[->|[]]].
  - by exists (lit "fuera de "), [].
  - by exists (lit "off "), [].
Qed.

(** X5. Every entry of the minutes comes from a window of the input
    with a non-empty transcript, reached with the session open; it has
    the time stamps of the window and the keywords of its transcript,
    and it is either a 'comando' entry holding the transcript of a
    window classified "desactivar", or a 'contenido' entry holding the
    capitalized transcript of a window that is no command, reached with
    [en_acta] set. *)
Theorem procedencia_de_las_entradas (xs : list (segmento * str))
  (e : entrada) :
  e ∈ procesar_audio_con_comandos lower capitalize xs ->
  exists i seg t,
    xs !! i = Some (seg, t) /\ t <> [] /\
    estado_activo (llegar xs i) = true /\
    inicio e = seg_inicio seg /\ fin e = seg_fin seg /\
    matches e = buscar_keywords lower t /\
    ((tipo e = tipo_comando /\ transcripcion e = t /\
      detectar_comando lower t = Some desactivar_cmd) \/
     (tipo e = tipo_contenido /\ transcripcion e = capitalize t /\
      detectar_comando lower t = None /\ en_acta (llegar xs i) = true)).
Proof.
  intros (i & [seg t] & Hx & He)%elem_of_procesar.
  exists i, seg, t. split; [done|]. by apply anadidos_procedencia.
Qed.

(** X6. Every 'comando' entry of the minutes is tagged with the keyword
    "acta": each phrase of COMANDO_DESACTIVAR contains it. *)
Theorem comando_lleva_acta (xs : list (segmento * str)) (e : entrada) :
  e ∈ procesar_audio_con_comandos lower capitalize xs ->
  tipo e = tipo_comando ->
  lit "acta" ∈ matches e.
Proof.
  intros (i & [seg t] & Hx & He)%elem_of_procesar Ht.
  apply anadidos_procedencia in He
    as (_ & _ & _ & _ & -> & [(_ & _ & Hc)|(Ht' & _)]); [|congruence].
  apply detectar_desactivar_ocurre in Hc as (f & Hf & Hoc).
  apply buscar_keywords_spec. split.
  - unfold PALABRAS_CLAVE. rewrite !elem_of_cons. tauto.
  - eapply ocurre_trans; [by apply acta_en_desactivar|done].
Qed.

(** X7. The loop only appends: the minutes of a recording are a prefix
    of the minutes of any longer recording that starts the same way. *)
Theorem acta_solo_crece (xs ys : list (segmento * str)) :
  procesar_audio_con_comandos lower capitalize xs
    `prefix_of` procesar_audio_con_comandos lower capitalize (xs ++ ys).
Proof.
  unfold procesar_audio_con_comandos.
  rewrite bucle_app, (acta_bucle _ _ ys). by eexists.
Qed.

(** X8. Saying "inicio" again in an open session, or "activar" again
    while the minutes are open, changes nothing: the run ends as if the
    window were absent (a repeated "inicio" does not reset [en_acta]). *)
Theorem comando_repetido_no_cambia (pre post : list (segmento * str))
  (x : segmento * str) :
  (es inicio_cmd x /\ estado_activo (lazo pre v0) = true) \/
  (es activar_cmd x /\ estado_activo (lazo pre v0) = true /\
   en_acta (lazo pre v0) = true) ->
  lazo (pre ++ x :: post) v0 = lazo (pre ++ post) v0 /\
  procesar_audio_con_comandos lower capitalize (pre ++ x :: post)
  = procesar_audio_con_comandos lower capitalize (pre ++ post).
Proof.
  intros H.
  assert (Hx : iter (lazo pre v0) x = lazo pre v0).
  { revert H. generalize (lazo pre v0). intros [a b acta].
    destruct x as [seg t]. unfold es_comando, iteracion. simpl.
    intros [[[Hne Hc] Ha]|[[Hne Hc] [Ha Hb]]]; subst;
      destruct t as [|c t]; try done; simpl; by rewrite Hc. }
  assert (Hl : lazo (pre ++ x :: post) v0 = lazo (pre ++ post) v0).
  { by rewrite !bucle_app, bucle_cons, Hx. }
  split; [done|]. unfold procesar_audio_con_comandos. by rewrite Hl.
Qed.

End Historia.

(** ** More on the classifier and the tagger *)

Section Clasificador.

Variable lower : str -> str.

Lemma filter_sublist_impl {A : Type} (f g : A -> bool) (l : list A) :
  (forall a, f a = true -> g a = true) ->
  List.filter f l `sublist_of` List.filter g l.
Proof.
  intros Hfg. induction l as [|a l IH]; simpl; [constructor|].
  destruct (f a) eqn:Hf.
  - rewrite (Hfg a Hf). by constructor.
  - destruct (g a); [by constructor|done].
Qed.

Lemma filter_sublist {A : Type} (f : A -> bool) (l : list A) :
  List.filter f l `sublist_of` l.
Proof.
  induction l as [|a l IH]; simpl; [constructor|].
  destruct (f a); by constructor.
Qed.

Lemma NoDup_PALABRAS_CLAVE : NoDup PALABRAS_CLAVE.
Proof.
  apply (bool_decide_unpack _). by vm_compute.
Qed.

Lemma alguna_ocurre_mas_texto (frases : list str) (t t' : str) :
  ocurre (lower t) (lower t') ->
  alguna_ocurre lower frases t -> alguna_ocurre lower frases t'.
Proof.
  intros Htt (f & Hf & Hoc). exists f. split; [done|].
  by apply (ocurre_trans _ (lower t)).
Qed.

(** X9. The keywords found in a text are PALABRAS_CLAVE with some
    entries deleted: they come in the configured order, none twice, at
    most seven of them. *)
Theorem buscar_keywords_en_orden (t : str) :
  buscar_keywords lower t `sublist_of` PALABRAS_CLAVE /\
  NoDup (buscar_keywords lower t) /\
  (length (buscar_keywords lower t) <= 7)%nat.
Proof.
  assert (Hsub : buscar_keywords lower t `sublist_of` PALABRAS_CLAVE)
    by apply filter_sublist.
  split; [done|]. split.
  - eapply sublist_NoDup; [apply NoDup_PALABRAS_CLAVE|exact Hsub].
  - by apply sublist_length in Hsub.
Qed.

(** X10. More speech around a command does not lose it: if the
    lower-cased [t] occurs in the lower-cased [t'], then [t'] is
    classified "inicio" when [t] is, "inicio" or "activar" when [t] is
    "activar", and as some command when [t] is one. *)
Theorem mas_texto_no_pierde_comando (t t' : str) :
  ocurre (lower t) (lower t') ->
  (detectar_comando lower t = Some inicio_cmd ->
   detectar_comando lower t' = Some inicio_cmd) /\
  (detectar_comando lower t = Some activar_cmd ->
   detectar_comando lower t' = Some inicio_cmd \/
   detectar_comando lower t' = Some activar_cmd) /\
  (detectar_comando lower t <> None -> detectar_comando lower t' <> None).
Proof.
  intros Htt.
  pose proof (alguna_ocurre_mas_texto COMANDOS_INICIO t t' Htt) as Hi.
  pose proof (alguna_ocurre_mas_texto COMANDO_ACTIVAR t t' Htt) as Ha.
  pose proof (alguna_ocurre_mas_texto COMANDO_DESACTIVAR t t' Htt) as Hd.
  rewrite <- !existsb_contiene in Hi, Ha, Hd.
  unfold detectar_comando.
  destruct (existsb _ COMANDOS_INICIO) eqn:E1;
    [rewrite (Hi eq_refl); split_and!; auto; congruence|].
  destruct (existsb _ COMANDO_ACTIVAR) eqn:E2;
    [rewrite (Ha eq_refl); split_and!; try congruence;
     intros _; repeat case_match; auto; congruence|].
  destruct (existsb _ COMANDO_DESACTIVAR) eqn:E3;
    [rewrite (Hd eq_refl); split_and!; try congruence;
     intros _; repeat case_match; congruence|].
  split_and!; congruence.
Qed.

(** X11. More speech does not lose keywords either: under the same
    condition the keywords of [t] are among those of [t'], in order. *)
Theorem mas_texto_no_pierde_keywords (t t' : str) :
  ocurre (lower t) (lower t') ->
  buscar_keywords lower t `sublist_of` buscar_keywords lower t'.
Proof.
  intros Htt. apply filter_sublist_impl. intros kw.
  rewrite !contiene_spec. intros Hoc. by apply (ocurre_trans _ (lower t)).
Qed.

End Clasificador.

(** For the Latin-1 [lower] the condition holds of a text and any text
    in which it occurs. *)
Lemma ocurre_lower_latin1_mono (t t' : str) :
  ocurre t t' -> ocurre (lower_latin1 t) (lower_latin1 t').
Proof.
  intros (pre & post & ->). exists (lower_latin1 pre), (lower_latin1 post).
  unfold lower_latin1. by rewrite !map_app.
Qed.

(** ** The rendered minutes *)

Section Artefactos.

Variable fmt_1f : float -> str.

Lemma ocurre_concat (w : str) (ws : list str) :
  w ∈ ws -> ocurre w (concat ws).
Proof.
  intros (pre & post & ->)%list_elem_of_split.
  exists (concat pre), (concat post).
  by rewrite concat_app.
Qed.

Lemma escrituras_de_entrada (acta : list entrada) (e : entrada) (w : str) :
  e ∈ acta -> w ∈ escribe_entrada fmt_1f e -> w ∈ escrituras_txt fmt_1f acta.
Proof.
  intros He Hw. unfold escrituras_txt.
  apply elem_of_app. right. apply elem_of_app. left.
  apply list_elem_of_In, in_flat_map. exists e.
  by rewrite <- !list_elem_of_In.
Qed.

(** X12. The text file holds, for every entry of the minutes, its time
    line and its whole transcript, never shortened, and its keywords
    line when the entry has keywords. *)
Theorem txt_guarda_cada_entrada (acta : list entrada) (e : entrada) :
  e ∈ acta ->
  ocurre (lit "Tiempo: " ++ tiempo_de fmt_1f e ++ nl)
    (generar_acta_txt fmt_1f acta) /\
  ocurre (lit "Transcripción: " ++ transcripcion e ++ nl)
    (generar_acta_txt fmt_1f acta) /\
  (matches e <> [] ->
   ocurre (lit "Keywords: " ++ join (lit ", ") (matches e) ++ nl)
     (generar_acta_txt fmt_1f acta)).
Proof.
  intros He. unfold generar_acta_txt. split_and!.
  - apply ocurre_concat, (escrituras_de_entrada _ e); [done|].
    unfold escribe_entrada. rewrite !elem_of_app, !elem_of_cons. tauto.
  - apply ocurre_concat, (escrituras_de_entrada _ e); [done|].
    unfold escribe_entrada. rewrite !elem_of_app, !elem_of_cons. tauto.
  - intros Hm. apply ocurre_concat, (escrituras_de_entrada _ e); [done|].
    unfold escribe_entrada. destruct (matches e); [done|]. simpl.
    rewrite !elem_of_cons. tauto.
Qed.

(** X13. The table has one header row and one row of three cells per
    entry, in the order of the minutes.  The transcript cell never has
    more than 63 characters and agrees with the transcript on the first
    60: it is the transcript when that has at most 60 characters, and
    its first 60 followed by "..." otherwise. *)
Theorem pdf_filas_y_recorte (acta : list entrada) :
  length (generar_acta_pdf fmt_1f acta) = S (length acta) /\
  forall i e,
    acta !! i = Some e ->
    exists trans,
      generar_acta_pdf fmt_1f acta !! S i
      = Some [tiempo_de fmt_1f e; trans; celda_kws e] /\
      (length trans <= 63)%nat /\
      take 60 trans = take 60 (transcripcion e) /\
      ((length (transcripcion e) <= 60)%nat -> trans = transcripcion e) /\
      ((60 < length (transcripcion e))%nat ->
       trans = take 60 (transcripcion e) ++ lit "..." /\
       length trans = 63%nat).
Proof.
  unfold generar_acta_pdf. split; [simpl; by rewrite length_map|].
  intros i e He. exists (celda_trans e). split.
  - simpl. change (List.map ?f acta) with (f <$> acta).
    by rewrite list_lookup_fmap, He.
  - unfold celda_trans.
    destruct (60 <? length (transcripcion e))%nat eqn:Hlen.
    + apply Nat.ltb_lt in Hlen.
      assert (Ht : length (take 60 (transcripcion e)) = 60%nat)
        by (rewrite length_take; lia).
      split_and!.
      * rewrite length_app, Ht. simpl. lia.
      * rewrite take_app_le by lia. rewrite take_take. f_equal.
      * lia.
      * intros _. split; [done|]. rewrite length_app, Ht. by simpl.
    + apply Nat.ltb_ge in Hlen. split_and!; [lia|done|done|lia].
Qed.

End Artefactos.

Section Marcador.

Variable lower : str -> str.
Variable capitalize : str -> str.

Lemma join_no_es_ninguno (l : list str) :
  l `sublist_of` PALABRAS_CLAVE -> l <> [] ->
  join (lit ", ") l <> lit "Ninguno".
Proof.
  intros Hsub Hne. destruct l as [|k r]; [done|].
  assert (Hk : k ∈ PALABRAS_CLAVE).
  { apply (elem_of_sublist (k :: r)); [by left|done]. }
  assert (Hc : exists c k', k = c :: k' /\ c <> 78).
  { unfold PALABRAS_CLAVE in Hk.
    rewrite !elem_of_cons, elem_of_nil in Hk.
    destruct Hk as [->|[->|[->|[->|[->|[->|[->|[]]]]]]]];
      vm_compute; eexists _, _; (split; [reflexivity|discriminate]). }
  destruct Hc as (c & k' & -> & Hc).
  assert (Hj : exists s, join (lit ", ") ((c :: k') :: r) = c :: s).
  { destruct r; simpl; eauto. }
  destruct Hj as [s Hs]. intros H.
  assert (H' : c :: s = lit "Ninguno") by (rewrite <- Hs; exact H).
  vm_compute in H'. injection H' as H' _. by apply Hc.
Qed.

(** X14. In the table built from the minutes of a run the placeholder
    "Ninguno" stands in the keywords cell exactly of the entries without
    keywords, and never in the row of a 'comando' entry. *)
Theorem ninguno_solo_sin_keywords (xs : list (segmento * str))
  (e : entrada) :
  e ∈ procesar_audio_con_comandos lower capitalize xs ->
  (celda_kws e = lit "Ninguno" <-> matches e = []) /\
  (tipo e = tipo_comando -> celda_kws e <> lit "Ninguno").
Proof.
  intros (i & [seg t] & Hx & He)%elem_of_procesar.
  apply anadidos_procedencia in He as (_ & _ & _ & _ & Hm & Htipo).
  assert (Hiff : celda_kws e = lit "Ninguno" <-> matches e = []).
  { unfold celda_kws. destruct (matches e) as [|k r] eqn:Hme; [done|].
    simpl sin_matches. cbv iota. split; [|done]. intros Hj. exfalso.
    apply (join_no_es_ninguno (k :: r)); [|done|done].
    rewrite Hm. apply filter_sublist. }
  split; [done|]. intros Ht. rewrite Hiff.
  destruct Htipo as [(_ & _ & Hc)|(Ht' & _)]; [|congruence].
  apply detectar_desactivar_ocurre in Hc as (f & Hf & Hoc).
  assert (Hacta : lit "acta" ∈ matches e).
  { rewrite Hm. apply buscar_keywords_spec. split.
    - unfold PALABRAS_CLAVE. rewrite !elem_of_cons. tauto.
    - eapply ocurre_trans; [by apply acta_en_desactivar|done]. }
  intros Hnil. rewrite Hnil in Hacta. by apply elem_of_nil in Hacta.
Qed.

End Marcador.

(** ** Sample runs of the further properties *)

Lemma minutas_escenario_A :
  procesar_audio_con_comandos lower_latin1 capitalize_latin1 escenario_A
  = [entrada_A3; entrada_A4].
Proof. reflexivity. Qed.

(** Scenario B: no window opens the session. *)
Lemma sin_inicio_no_hay_acta_witness :
  bucle lower_latin1 capitalize_latin1 escenario_B variables_iniciales
  = variables_iniciales /\
  procesar_audio_con_comandos lower_latin1 capitalize_latin1 escenario_B
  = [] /\
  main lower_latin1 capitalize_latin1 fmt_muestra escenario_B = None.
Proof.
  apply (sin_inicio_no_hay_acta lower_latin1 capitalize_latin1 fmt_muestra
           escenario_B).
  intros x Hx [_ Hc]. unfold escenario_B in Hx.
  rewrite !elem_of_cons, elem_of_nil in Hx.
  destruct Hx as [->|[->|[->|[]]]]; vm_compute in Hc; discriminate.
Defined.

(** Scenario A, on reaching its third window. *)
Lemma en_acta_solo_en_sesion_witness :
  estado_activo (al_llegar lower_latin1 capitalize_latin1 escenario_A 2)
  = true.
Proof.
  apply (en_acta_solo_en_sesion lower_latin1 capitalize_latin1
           escenario_A 2).
  reflexivity.
Defined.

(** The content entry of scenario A. *)
Lemma procedencia_de_las_entradas_witness :
  exists i seg t,
    escenario_A !! i = Some (seg, t) /\ t <> [] /\
    estado_activo (al_llegar lower_latin1 capitalize_latin1 escenario_A i)
    = true /\
    inicio entrada_A3 = seg_inicio seg /\ fin entrada_A3 = seg_fin seg /\
    matches entrada_A3 = buscar_keywords lower_latin1 t /\
    ((tipo entrada_A3 = tipo_comando /\ transcripcion entrada_A3 = t /\
      detectar_comando lower_latin1 t = Some desactivar_cmd) \/
     (tipo entrada_A3 = tipo_contenido /\
      transcripcion entrada_A3 = capitalize_latin1 t /\
      detectar_comando lower_latin1 t = None /\
      en_acta (al_llegar lower_latin1 capitalize_latin1 escenario_A i)
      = true)).
Proof.
  apply (procedencia_de_las_entradas lower_latin1 capitalize_latin1
           escenario_A entrada_A3).
  rewrite minutas_escenario_A. apply list_elem_of_here.
Defined.

(** The command entry of scenario A. *)
Lemma comando_lleva_acta_witness : lit "acta" ∈ matches entrada_A4.
Proof.
  apply (comando_lleva_acta lower_latin1 capitalize_latin1 escenario_A
           entrada_A4).
  - rewrite minutas_escenario_A. apply list_elem_of_further, list_elem_of_here.
  - reflexivity.
Defined.

(** "empezamos" said right after "iniciamos". *)
Lemma comando_repetido_no_cambia_witness :
  bucle lower_latin1 capitalize_latin1
    ([(ventana 0, lit "iniciamos")] ++ (ventana 1, lit "empezamos") :: [])
    variables_iniciales
  = bucle lower_latin1 capitalize_latin1 ([(ventana 0, lit "iniciamos")] ++ [])
      variables_iniciales /\
  procesar_audio_con_comandos lower_latin1 capitalize_latin1
    ([(ventana 0, lit "iniciamos")] ++ (ventana 1, lit "empezamos") :: [])
  = procesar_audio_con_comandos lower_latin1 capitalize_latin1
      ([(ventana 0, lit "iniciamos")] ++ []).
Proof.
  apply (comando_repetido_no_cambia lower_latin1 capitalize_latin1
           [(ventana 0, lit "iniciamos")] []
           (ventana 1, lit "empezamos")).
  left. split; [split; [discriminate|reflexivity]|reflexivity].
Defined.

(** "en acta" inside a longer sentence, in capitals. *)
Lemma mas_texto_no_pierde_comando_witness :
  detectar_comando lower_latin1 (lit "ahora EN ACTA por favor")
  = Some inicio_cmd \/
  detectar_comando lower_latin1 (lit "ahora EN ACTA por favor")
  = Some activar_cmd.
Proof.
  apply (mas_texto_no_pierde_comando lower_latin1 (lit "en acta")
           (lit "ahora EN ACTA por favor")).
  - exists (lit "ahora "), (lit " por favor"). reflexivity.
  - reflexivity.
Defined.

(** The keyword of "la obra" inside a longer sentence. *)
Lemma mas_texto_no_pierde_keywords_witness :
  buscar_keywords lower_latin1 (lit "la obra")
    `sublist_of` buscar_keywords lower_latin1 (lit "riesgo en la obra civil").
Proof.
  apply (mas_texto_no_pierde_keywords lower_latin1 (lit "la obra")
           (lit "riesgo en la obra civil")).
  exists (lit "riesgo en "), (lit " civil"). reflexivity.
Defined.

(** The text file of the minutes of scenario A. *)
Lemma txt_guarda_cada_entrada_witness :
  ocurre (lit "Transcripción: " ++ transcripcion entrada_A3 ++ nl)
    (generar_acta_txt fmt_muestra [entrada_A3; entrada_A4]).
Proof.
  destruct (txt_guarda_cada_entrada fmt_muestra [entrada_A3; entrada_A4]
              entrada_A3 (list_elem_of_here _ _)) as (_ & Htrans & _).
  exact Htrans.
Defined.

(** The table of the minutes of scenario A. *)
Lemma ninguno_solo_sin_keywords_witness :
  celda_kws entrada_A4 <> lit "Ninguno".
Proof.
  apply (ninguno_solo_sin_keywords lower_latin1 capitalize_latin1
           escenario_A entrada_A4).
  - rewrite minutas_escenario_A. apply list_elem_of_further, list_elem_of_here.
  - reflexivity.
Defined.

(** Scenario A keeps two of its four windows. *)
Lemma acta_mas_corta_witness :
  (length (procesar_audio_con_comandos lower_latin1 capitalize_latin1
             escenario_A) < length escenario_A)%nat.
Proof.
  apply (acta_mas_corta lower_latin1 capitalize_latin1 escenario_A).
  discriminate.
Defined.
